(** * Reimbursement calculator: a shallow embedding of
      [calculate_reimbursement.py] and the properties of its specification.

    Numbers.  Python's [int] is [Z].  Python's [float] is modelled by the
    exact rationals [Q]: every arithmetic step is the exact one, and
    [round(x, 2)] is the correctly rounded (ties to even) decimal rounding
    that CPython implements.  Rational results are compared with [==].

    Errors.  The two operations of the function that can raise, the
    division and the subscript of a [dict], return in the [result] monad.

    Range.  [calculate_reimbursement] is the function on exact numbers.
    [calculate_reimbursement_checked] adds what the exact numbers leave
    out of the errors: where the arithmetic mixes an [int] with a [float]
    Python converts the [int], and raises [OverflowError] when it is beyond
    the range of a float.  The two agree on every trip whose days are in
    that range, and [main] runs the second.  Within the range the model
    still differs from the binary arithmetic in the last bits: where the
    exact amount is half a cent from two neighbours, the program may round
    to the other one.

    Randomness.  [random.random()] is an injected value [rnd]. *)

From Stdlib Require Import QArith Qround Qminmax Lqa.
From stdpp Require Import gmap strings.

Local Open Scope Z_scope.
Local Open Scope Q_scope.

(** ** Python values and exceptions *)

Inductive exn : Type :=
  | ZeroDivisionError
  | KeyError (key : string)
  | IndexError
  | OverflowError.

Inductive result (A : Type) : Type :=
  | Ok (a : A)
  | Raise (e : exn).
Arguments Ok {A} a.
Arguments Raise {A} e.

#[global] Instance result_ret : MRet result := fun A a => Ok a.
#[global] Instance result_bind : MBind result := fun A B f m =>
  match m with
  | Ok a => f a
  | Raise e => Raise e
  end.

(** Comparisons of floats are decided, so that [if decide (x < y)] runs. *)
#[global] Instance Qlt_decision (x y : Q) : Decision (x < y).
Proof.
  destruct (Qlt_le_dec x y) as [H | H];
    [left; exact H | right; apply Qle_not_lt; exact H].
Defined.

#[global] Instance Qle_decision (x y : Q) : Decision (x <= y).
Proof.
  destruct (Qlt_le_dec y x) as [H | H];
    [right; apply Qlt_not_le; exact H | left; exact H].
Defined.

(** [a / b] with a float [a] and an int [b]. *)
Definition truediv (a : Q) (b : Z) : result Q :=
  if decide (b = 0%Z) then Raise ZeroDivisionError else Ok (a / inject_Z b).

(** The conversion of an [int] operand to a [float], as mixed arithmetic
    performs it.  From [2^1024 - 2^970] on the nearest float would be
    [2^1024]: the conversion raises. *)
Definition float_overflow_threshold : Z := 2 ^ 1024 - 2 ^ 970.

Definition float_of_int (n : Z) : result Q :=
  if decide (Z.abs n < float_overflow_threshold)%Z then Ok (inject_Z n)
  else Raise OverflowError.

(** [d[k]] on a [dict] with string keys. *)
Definition subscript {V : Type} (d : gmap string V) (k : string) : result V :=
  match d !! k with
  | Some v => Ok v
  | None => Raise (KeyError k)
  end.

(** The builtin [min] of two arguments keeps the first one unless the
    second is strictly smaller. *)
Definition py_min (a b : Q) : Q := if decide (b < a) then b else a.

(** [round(x)] to an integer, ties to even. *)
Definition round_half_even (x : Q) : Z :=
  let f := Qfloor x in
  let d := x - inject_Z f in
  if decide (d < 1 # 2) then f
  else if decide (1 # 2 < d) then (f + 1)%Z
  else if Z.even f then f else (f + 1)%Z.

(** [round(x, 2)]. *)
Definition round2 (x : Q) : Q := inject_Z (round_half_even (x * 100)) / 100.

(** ** The module [calculate_reimbursement] *)

Definition PER_DIEM_TABLE : gmap string (gmap string Z) :=
  {[ "Low" := {[ "BaseRate" := 15%Z; "MieRate" := 5%Z ]};
     "Medium" := {[ "BaseRate" := 50%Z; "MieRate" := 15%Z ]};
     "High" := {[ "BaseRate" := 65%Z; "MieRate" := 20%Z ]} ]}.

(** Step 1: [miles_traveled / trip_duration_days if trip_duration_days > 0
    else 0].  The division is evaluated only on the first arm. *)
Definition efficiency_of (trip_duration_days : Z) (miles_traveled : Q) : result Q :=
  if decide (trip_duration_days > 0)%Z
  then truediv miles_traveled trip_duration_days
  else mret 0.

(** Step 2: the location inferred from the effort. *)
Definition infer_location (efficiency : Q) (trip_duration_days : Z)
    (miles_traveled total_receipts_amount : Q) : string :=
  if decide (efficiency > 200 \/ (miles_traveled > 800 /\ total_receipts_amount > 1000))
  then "High"
  else if decide (efficiency < 50 \/ ((trip_duration_days > 7)%Z /\ efficiency < 100))
  then "Low"
  else "Medium".

(** Step 3: the per diem, with its duration factor. *)
Definition duration_factor_of (trip_duration_days : Z) (location : string) : Q :=
  if decide (trip_duration_days = 5%Z) then 1.15
  else if decide (trip_duration_days > 7)%Z
  then (if decide (location = "Low") then 0.40 else 0.80)
  else 1.0.

Definition per_diem_of (base_rate m_and_ie_rate trip_duration_days : Z)
    (location : string) : Q :=
  let per_diem :=
    if decide (trip_duration_days >= 2)%Z
    then inject_Z ((base_rate + m_and_ie_rate) * (trip_duration_days - 2))
         + (inject_Z base_rate + inject_Z m_and_ie_rate * 0.75) * 2
    else inject_Z ((base_rate + m_and_ie_rate) * trip_duration_days) in
  per_diem * duration_factor_of trip_duration_days location.

(** Step 4: the tiered mileage, before the efficiency factor. *)
Definition mileage_tiers (miles_traveled : Q) : Q :=
  if decide (miles_traveled >= 50) then
    if decide (miles_traveled <= 100) then miles_traveled * 0.70
    else if decide (miles_traveled <= 500)
    then (100 * 0.70) + ((miles_traveled - 100) * 0.60)
    else (100 * 0.70) + (400 * 0.60) + ((miles_traveled - 500) * 0.50)
  else 0.0.

Definition efficiency_factor_of (efficiency : Q) (trip_duration_days : Z) : Q :=
  if decide (efficiency > 200) then 1.20
  else if decide (efficiency > 100 /\ efficiency <= 200) then 1.15
  else if decide (efficiency > 300 /\ (trip_duration_days > 1)%Z) then 0.90
  else 1.0.

(** The same chain of tests with its third arm deleted. *)
Definition efficiency_factor_without_third_arm (efficiency : Q)
    (trip_duration_days : Z) : Q :=
  if decide (efficiency > 200) then 1.20
  else if decide (efficiency > 100 /\ efficiency <= 200) then 1.15
  else 1.0.

(** Step 5: the receipts. *)
Definition receipt_adjustment_of (per_diem efficiency : Q) (trip_duration_days : Z)
    (total_receipts_amount : Q) : Q :=
  if decide (total_receipts_amount < 50) then per_diem
  else if decide (total_receipts_amount <= 500 /\ (trip_duration_days <= 6)%Z)
  then py_min (per_diem * 0.8) total_receipts_amount
  else
    let excess := py_min (total_receipts_amount - per_diem)
                         (if decide (efficiency < 100) then 200 else 500) in
    per_diem + excess * 0.15.

(** Step 6: the cyclical suppression. *)
Definition cycle_factor_of (location : string) (efficiency : Q) : Q :=
  if decide (location = "Low" /\ efficiency < 100) then 1.0 * 0.85 else 1.0.

(** Steps 3 to 8, once the efficiency, the location and its two rates are
    known: the amount after the low-effort cap.  The body is written once,
    over the efficiency factor [ef] of step 4, so that the function with an
    arm of that step removed is the same text. *)
Definition amount_after_cap (ef : Q -> Z -> Q) (efficiency : Q) (location : string)
    (base_rate m_and_ie_rate trip_duration_days : Z)
    (miles_traveled total_receipts_amount : Q) : Q :=
  let per_diem := per_diem_of base_rate m_and_ie_rate trip_duration_days location in
  let mileage_reimbursement :=
    mileage_tiers miles_traveled * ef efficiency trip_duration_days in
  let receipt_adjustment :=
    receipt_adjustment_of per_diem efficiency trip_duration_days total_receipts_amount in
  let cycle_factor := cycle_factor_of location efficiency in
  let reimbursement :=
    (per_diem + mileage_reimbursement + receipt_adjustment) * cycle_factor in
  if decide (efficiency < 50)
  then py_min reimbursement (inject_Z (trip_duration_days * 100))
  else reimbursement.

(** Steps 1 to 8, with the division and the two table lookups that can
    raise. *)
Definition capped_amount_with (ef : Q -> Z -> Q) (trip_duration_days : Z)
    (miles_traveled total_receipts_amount : Q) : result Q :=
  efficiency ← efficiency_of trip_duration_days miles_traveled;
  let location :=
    infer_location efficiency trip_duration_days miles_traveled total_receipts_amount in
  rates ← subscript PER_DIEM_TABLE location;
  base_rate ← subscript rates "BaseRate";
  rates' ← subscript PER_DIEM_TABLE location;
  m_and_ie_rate ← subscript rates' "MieRate";
  mret (amount_after_cap ef efficiency location base_rate m_and_ie_rate
          trip_duration_days miles_traveled total_receipts_amount).

(** Step 9: the factor drawn when [add_noise] is set. *)
Definition noise_factor_of (rnd : Q) : Q := 0.95 + (rnd * 0.10).

(** Steps 9 and 10 on top of steps 1 to 8. *)
Definition calculate_reimbursement_with (ef : Q -> Z -> Q) (rnd : Q)
    (trip_duration_days : Z) (miles_traveled total_receipts_amount : Q)
    (use_system_date add_noise : bool) : result Q :=
  reimbursement ←
    capped_amount_with ef trip_duration_days miles_traveled total_receipts_amount;
  let reimbursement :=
    if add_noise then reimbursement * noise_factor_of rnd else reimbursement in
  mret (round2 reimbursement).

Definition capped_amount : Z -> Q -> Q -> result Q :=
  capped_amount_with efficiency_factor_of.

Definition calculate_reimbursement : Q -> Z -> Q -> Q -> bool -> bool -> result Q :=
  calculate_reimbursement_with efficiency_factor_of.

(** Steps 3 to 7: the combined amount on which step 8 puts its cap. *)
Definition amount_before_cap (ef : Q -> Z -> Q) (efficiency : Q) (location : string)
    (base_rate m_and_ie_rate trip_duration_days : Z)
    (miles_traveled total_receipts_amount : Q) : Q :=
  let per_diem := per_diem_of base_rate m_and_ie_rate trip_duration_days location in
  let mileage_reimbursement :=
    mileage_tiers miles_traveled * ef efficiency trip_duration_days in
  let receipt_adjustment :=
    receipt_adjustment_of per_diem efficiency trip_duration_days total_receipts_amount in
  let cycle_factor := cycle_factor_of location efficiency in
  (per_diem + mileage_reimbursement + receipt_adjustment) * cycle_factor.

(** ** The function with the conversions of [int] to [float] *)

(** Step 1: the division converts [trip_duration_days] before it divides. *)
Definition efficiency_checked (trip_duration_days : Z) (miles_traveled : Q)
    : result Q :=
  if decide (trip_duration_days > 0)%Z
  then float_of_int trip_duration_days ≫= fun _ =>
       truediv miles_traveled trip_duration_days
  else mret 0.

(** Step 3: the [int] that meets a [float].  From two days on it is the
    product [(base_rate + m_and_ie_rate) * (trip_duration_days - 2)], added
    to a float; otherwise it is the whole per diem, an [int] until it is
    multiplied by the duration factor. *)
Definition per_diem_int (base_rate m_and_ie_rate trip_duration_days : Z) : Z :=
  if decide (trip_duration_days >= 2)%Z
  then (base_rate + m_and_ie_rate) * (trip_duration_days - 2)
  else (base_rate + m_and_ie_rate) * trip_duration_days.

(** The whole function.  Steps 1 and 3 convert as above.  In step 8 [min]
    compares without converting and returns the [int]
    [trip_duration_days * 100] when it is the smaller; step 9 then
    multiplies that [int] by the noise factor, and converts it. *)
Definition calculate_reimbursement_checked (rnd : Q) (trip_duration_days : Z)
    (miles_traveled total_receipts_amount : Q)
    (use_system_date add_noise : bool) : result Q :=
  efficiency ← efficiency_checked trip_duration_days miles_traveled;
  let location :=
    infer_location efficiency trip_duration_days miles_traveled total_receipts_amount in
  rates ← subscript PER_DIEM_TABLE location;
  base_rate ← subscript rates "BaseRate";
  rates' ← subscript PER_DIEM_TABLE location;
  m_and_ie_rate ← subscript rates' "MieRate";
  _ ← float_of_int (per_diem_int base_rate m_and_ie_rate trip_duration_days);
  let uncapped :=
    amount_before_cap efficiency_factor_of efficiency location base_rate
      m_and_ie_rate trip_duration_days miles_traveled total_receipts_amount in
  let reimbursement :=
    amount_after_cap efficiency_factor_of efficiency location base_rate
      m_and_ie_rate trip_duration_days miles_traveled total_receipts_amount in
  reimbursement ←
    (if add_noise then
       reimbursement ←
         (if decide (efficiency < 50
                     /\ inject_Z (trip_duration_days * 100) < uncapped)
          then float_of_int (trip_duration_days * 100)
          else mret reimbursement);
       mret (reimbursement * noise_factor_of rnd)
     else mret reimbursement);
  mret (round2 reimbursement).

(** ** The entry point [main] *)

(** What a run leaves behind: the lines written to each stream and the
    exit status.  [print] of a float writes its [repr]. *)
Inductive line : Type :=
  | Text (s : string)
  | Repr (x : Q)
  | Traceback (e : exn).

Record process : Type := Process {
  stdout : list line;
  stderr : list line;
  exit_status : Z
}.

Definition usage_message : string :=
  "Usage: python3 calculate_reimbursement.py <trip_duration_days> <miles_traveled> <total_receipts_amount>".

(** [sys.exit(1)] after one line on standard error. *)
Definition die (l : line) : process :=
  {| stdout := []; stderr := [l]; exit_status := 1 |}.

Section Main.
(** The builtins [int] and [float] on a string: the value, or the
    message of the [ValueError] they raise. *)
Variable py_int : string -> string + Z.
Variable py_float : string -> string + Q.
(** The state of the generator, were it consulted. *)
Variable rnd : Q.

Definition invalid_input (e : string) : process :=
  die (Text ("Error: Invalid input format (" ++ e ++ ")")).

(** The body of the [try] block, given the three arguments. *)
Definition try_block (a1 a2 a3 : string) : process :=
  match py_int a1 with
  | inl e => invalid_input e
  | inr trip_duration_days =>
    match py_float a2 with
    | inl e => invalid_input e
    | inr miles_traveled =>
      match py_float a3 with
      | inl e => invalid_input e
      | inr total_receipts_amount =>
        match calculate_reimbursement_checked rnd trip_duration_days
                miles_traveled total_receipts_amount false false with
        | Ok result => {| stdout := [Repr result]; stderr := []; exit_status := 0 |}
        | Raise e => die (Traceback e)
        end
      end
    end
  end.

(** [main], on [sys.argv]. *)
Definition main (argv : list string) : process :=
  if decide (length argv ≠ 4%nat) then die (Text usage_message)
  else
    match argv !! 1%nat, argv !! 2%nat, argv !! 3%nat with
    | Some a1, Some a2, Some a3 => try_block a1 a2 a3
    | _, _, _ => die (Traceback IndexError)
    end.
End Main.

(** ** Definitions used by the statements *)

(** The rows of [PER_DIEM_TABLE], as a relation. *)
Inductive table_row : string -> Z -> Z -> Prop :=
  | row_Low : table_row "Low" 15 5
  | row_Medium : table_row "Medium" 50 15
  | row_High : table_row "High" 65 20.

(** The receipt adjustment in the words of the specification (section 4.1,
    step 5), to be compared with [receipt_adjustment_of]. *)
Definition receipt_adjustment_spec (perDiem efficiency : Q) (days : Z)
    (receipts : Q) : Q :=
  if decide (receipts < 50) then perDiem
  else if decide (receipts <= 500 /\ (days <= 6)%Z)
  then Qmin (perDiem * 0.8) receipts
  else perDiem
       + 0.15 * Qmin (receipts - perDiem)
                     (if decide (efficiency < 100) then 200 else 500).

(** What a run that ends in [sys.exit(1)] after the message [s] leaves. *)
Definition failed_with (s : string) : process :=
  {| stdout := []; stderr := [Text s]; exit_status := 1 |}.

(** What a run that prints the amount [v] and ends normally leaves. *)
Definition printed (v : Q) : process :=
  {| stdout := [Repr v]; stderr := []; exit_status := 0 |}.

(** * Properties *)

(** ** Integers among the rationals *)

Lemma inject_Z_sub (x y : Z) : inject_Z (x - y) = inject_Z x - inject_Z y.
Proof.
  unfold Z.sub, Qminus. now rewrite inject_Z_plus, inject_Z_opp.
Qed.

Lemma inject_Z_le (x y : Z) : (x <= y)%Z -> inject_Z x <= inject_Z y.
Proof. now rewrite <- Zle_Qle. Qed.

Lemma inject_Z_lt (x y : Z) : (x < y)%Z -> inject_Z x < inject_Z y.
Proof. now rewrite <- Zlt_Qlt. Qed.

Lemma inject_Z_lt_inv (x y : Z) : inject_Z x < inject_Z y -> (x < y)%Z.
Proof. now rewrite <- Zlt_Qlt. Qed.

(** Closed comparisons of rationals, by computation. *)
Ltac q_closed := unfold Qle, Qlt; simpl; lia.

(** Moves the integer operations of a goal under [inject_Z] to [Q]. *)
Ltac push_inject :=
  repeat (rewrite ?inject_Z_sub, ?inject_Z_plus, ?inject_Z_mult, ?inject_Z_opp in * ).

(** ** Rounding *)

Section Rounding.
Variable x : Q.

Lemma round_half_even_floor :
  (Qfloor x <= round_half_even x <= Qfloor x + 1)%Z.
Proof.
  unfold round_half_even.
  repeat case_decide; try destruct (Z.even _); lia.
Qed.

(** Nothing at or below an integer rounds above it. *)
Lemma round_half_even_le (n : Z) :
  x <= inject_Z n -> (round_half_even x <= n)%Z.
Proof.
  intros Hx.
  pose proof (Qfloor_le x) as Hfl.
  assert (Hn : (Qfloor x <= n)%Z).
  { rewrite Zle_Qle. now apply Qle_trans with x. }
  destruct (Z.eq_dec (Qfloor x) n) as [Heq | Hne].
  - unfold round_half_even. rewrite Heq in *.
    assert (Hd : x - inject_Z n < 1 # 2) by lra.
    case_decide; [lia | contradiction].
  - pose proof round_half_even_floor. lia.
Qed.

(** Nothing at or above an integer rounds below it. *)
Lemma round_half_even_ge (n : Z) :
  inject_Z n <= x -> (n <= round_half_even x)%Z.
Proof.
  intros Hx.
  pose proof (Qlt_floor x) as Hfl.
  assert (Hn : (n < Qfloor x + 1)%Z).
  { apply inject_Z_lt_inv. now apply Qle_lt_trans with x. }
  pose proof round_half_even_floor. lia.
Qed.
(** A value within a half of an integer rounds to it. *)
Lemma round_half_even_nearest (n : Z) :
  inject_Z n - (1 # 2) < x -> x < inject_Z n + (1 # 2) ->
  round_half_even x = n.
Proof.
  intros Hlo Hhi.
  pose proof (Qfloor_le x) as Hfl.
  pose proof (Qlt_floor x) as Hfu.
  rewrite inject_Z_plus in Hfu. change (inject_Z 1) with 1 in Hfu.
  assert (Hle : (Qfloor x < n + 1)%Z).
  { apply inject_Z_lt_inv. rewrite inject_Z_plus.
    change (inject_Z 1) with 1. lra. }
  assert (Hge : (n - 1 < Qfloor x + 1)%Z).
  { apply inject_Z_lt_inv. rewrite inject_Z_sub, inject_Z_plus.
    change (inject_Z 1) with 1. lra. }
  unfold round_half_even.
  destruct (Z.eq_dec (Qfloor x) n) as [Heq | Hne].
  - rewrite Heq in *. case_decide; [reflexivity | exfalso; lra].
  - assert (Heq : Qfloor x = (n - 1)%Z) by lia.
    rewrite Heq in *. rewrite inject_Z_sub in *.
    change (inject_Z 1) with 1 in *.
    case_decide; [exfalso; lra |].
    case_decide; [lia | exfalso; lra].
Qed.
End Rounding.

(** The rounded value, in hundredths, is an integer. *)
Lemma round2_hundredths (x : Q) :
  round2 x * 100 == inject_Z (round_half_even (x * 100)).
Proof. unfold round2. field. Qed.

(** Every amount within half a cent of [n / 100] rounds to it. *)
Lemma round2_nearest (x : Q) (n : Z) :
  inject_Z n - (1 # 2) < x * 100 -> x * 100 < inject_Z n + (1 # 2) ->
  round2 x = inject_Z n / 100.
Proof.
  intros Hlo Hhi. unfold round2.
  now rewrite (round_half_even_nearest (x * 100) n).
Qed.

Lemma round2_le (x : Q) (n : Z) : x <= inject_Z n -> round2 x <= inject_Z n.
Proof.
  intros Hx.
  assert (H : (round_half_even (x * 100) <= n * 100)%Z).
  { apply round_half_even_le. rewrite inject_Z_mult.
    change (inject_Z 100) with 100. lra. }
  apply inject_Z_le in H. rewrite inject_Z_mult in H.
  change (inject_Z 100) with 100 in H.
  pose proof (round2_hundredths x) as Hr. lra.
Qed.

Lemma round2_nonneg (x : Q) : 0 <= x -> 0 <= round2 x.
Proof.
  intros Hx.
  assert (H : (0 <= round_half_even (x * 100))%Z).
  { apply round_half_even_ge. change (inject_Z 0) with 0. lra. }
  apply inject_Z_le in H. change (inject_Z 0) with 0 in H.
  pose proof (round2_hundredths x) as Hr. lra.
Qed.

(** ** The table and the lookups *)

Lemma infer_location_row (e : Q) (d : Z) (m r : Q) :
  exists b mi, table_row (infer_location e d m r) b mi.
Proof.
  unfold infer_location.
  repeat case_decide; eauto using table_row.
Qed.

Lemma table_row_lookup (loc : string) (b mi : Z) :
  table_row loc b mi ->
  exists rates,
    subscript PER_DIEM_TABLE loc = Ok rates /\
    subscript rates "BaseRate" = Ok b /\
    subscript rates "MieRate" = Ok mi.
Proof.
  intros []; eexists; repeat split; vm_compute; reflexivity.
Qed.

Lemma efficiency_of_Ok (d : Z) (m : Q) :
  efficiency_of d m = Ok (if decide (d > 0)%Z then m / inject_Z d else 0).
Proof.
  unfold efficiency_of, truediv.
  case_decide; [case_decide; [lia | reflexivity] | reflexivity].
Qed.

(** Steps 1 to 8 always produce an amount: the efficiency of step 1 and a
    row of the table. *)
Lemma capped_amount_with_Ok (ef : Q -> Z -> Q) (d : Z) (m r : Q) :
  exists e b mi,
    efficiency_of d m = Ok e /\
    table_row (infer_location e d m r) b mi /\
    capped_amount_with ef d m r
    = Ok (amount_after_cap ef e (infer_location e d m r) b mi d m r).
Proof.
  pose proof (efficiency_of_Ok d m) as He. revert He.
  generalize (if decide (d > 0)%Z then m / inject_Z d else 0). intros e He.
  destruct (infer_location_row e d m r) as (b & mi & Hrow).
  exists e, b, mi.
  split; [exact He | split; [exact Hrow |]].
  destruct (table_row_lookup _ _ _ Hrow) as (rates & Hr & Hb & Hmi).
  unfold capped_amount_with. rewrite He.
  cbn [mbind result_bind mret result_ret].
  rewrite Hr. cbn [mbind result_bind]. rewrite Hb. cbn [mbind result_bind].
  rewrite Hmi. reflexivity.
Qed.

(** ** Signs and bounds of the components *)

Lemma py_min_le_l (a b : Q) : py_min a b <= a.
Proof. unfold py_min. case_decide; lra. Qed.

Lemma py_min_le_r (a b : Q) : py_min a b <= b.
Proof. unfold py_min. case_decide; lra. Qed.

Lemma py_min_glb (a b c : Q) : c <= a -> c <= b -> c <= py_min a b.
Proof. unfold py_min. case_decide; lra. Qed.

Lemma py_min_Qmin (a b : Q) : py_min a b == Qmin a b.
Proof.
  unfold py_min. case_decide.
  - rewrite Q.min_r; lra.
  - rewrite Q.min_l; lra.
Qed.

Lemma duration_factor_nonneg (d : Z) (loc : string) : 0 <= duration_factor_of d loc.
Proof. unfold duration_factor_of. repeat case_decide; lra. Qed.

Lemma per_diem_nonneg (loc : string) (b mi d : Z) :
  table_row loc b mi -> (d >= 1)%Z -> 0 <= per_diem_of b mi d loc.
Proof.
  intros Hrow Hd. unfold per_diem_of.
  apply Qmult_le_0_compat; [| apply duration_factor_nonneg].
  assert (Hd' : 1 <= inject_Z d) by (apply (inject_Z_le 1); lia).
  destruct Hrow; case_decide; push_inject;
    repeat match goal with
           | |- context [inject_Z (Zpos ?p)] =>
               change (inject_Z (Zpos p)) with (Zpos p # 1)
           end; lra.
Qed.

Lemma mileage_tiers_nonneg (m : Q) : 0 <= mileage_tiers m.
Proof. unfold mileage_tiers. repeat case_decide; lra. Qed.

Lemma efficiency_factor_nonneg (e : Q) (d : Z) : 0 <= efficiency_factor_of e d.
Proof. unfold efficiency_factor_of. repeat case_decide; lra. Qed.

Lemma receipt_adjustment_nonneg (pd e : Q) (d : Z) (r : Q) :
  0 <= pd -> 0 <= r -> 0 <= receipt_adjustment_of pd e d r.
Proof.
  intros Hpd Hr. unfold receipt_adjustment_of, py_min.
  repeat case_decide; lra.
Qed.

Lemma cycle_factor_nonneg (loc : string) (e : Q) : 0 <= cycle_factor_of loc e.
Proof. unfold cycle_factor_of. case_decide; lra. Qed.

(** Step 8 keeps the amount at or under [days * 100] when it applies. *)
Lemma amount_after_cap_le (ef : Q -> Z -> Q) (e : Q) (loc : string)
    (b mi d : Z) (m r : Q) :
  e < 50 -> amount_after_cap ef e loc b mi d m r <= inject_Z (d * 100).
Proof.
  intros He. unfold amount_after_cap.
  case_decide; [apply py_min_le_r | contradiction].
Qed.

Lemma amount_after_cap_nonneg (e : Q) (loc : string) (b mi d : Z) (m r : Q) :
  table_row loc b mi -> (d >= 1)%Z -> 0 <= m -> 0 <= r ->
  0 <= amount_after_cap efficiency_factor_of e loc b mi d m r.
Proof.
  intros Hrow Hd Hm Hr.
  pose proof (per_diem_nonneg _ _ _ _ Hrow Hd) as Hpd.
  assert (Hsum : 0 <= (per_diem_of b mi d loc
                       + mileage_tiers m * efficiency_factor_of e d
                       + receipt_adjustment_of (per_diem_of b mi d loc) e d r)
                      * cycle_factor_of loc e).
  { apply Qmult_le_0_compat; [| apply cycle_factor_nonneg].
    pose proof (Qmult_le_0_compat _ _ (mileage_tiers_nonneg m)
                  (efficiency_factor_nonneg e d)).
    pose proof (receipt_adjustment_nonneg _ e d r Hpd Hr).
    lra. }
  unfold amount_after_cap. case_decide; [| exact Hsum].
  apply py_min_glb; [exact Hsum |].
  apply (inject_Z_le 0). lia.
Qed.

(** ** The whole function *)

(** The function always returns: the rounding of the capped amount, scaled
    by the noise factor when [add_noise] is set. *)
Lemma calculate_reimbursement_with_Ok (ef : Q -> Z -> Q) (rnd : Q) (d : Z)
    (m r : Q) (usd noise : bool) :
  exists c,
    capped_amount_with ef d m r = Ok c /\
    calculate_reimbursement_with ef rnd d m r usd noise
    = Ok (round2 (if noise then c * noise_factor_of rnd else c)).
Proof.
  destruct (capped_amount_with_Ok ef d m r) as (e & b & mi & _ & _ & Hc).
  eexists. split; [exact Hc |].
  unfold calculate_reimbursement_with. rewrite Hc. reflexivity.
Qed.

(** The result depends on the efficiency factor only through its values. *)
Lemma capped_amount_with_ext (ef ef' : Q -> Z -> Q) (d : Z) (m r : Q) :
  (forall e, ef e d = ef' e d) ->
  capped_amount_with ef d m r = capped_amount_with ef' d m r.
Proof.
  intros Hef. unfold capped_amount_with.
  destruct (efficiency_of d m) as [e |]; cbn [mbind result_bind]; [| reflexivity].
  destruct (subscript PER_DIEM_TABLE _) as [rates |];
    cbn [mbind result_bind]; [| reflexivity].
  destruct (subscript rates "BaseRate") as [b |];
    cbn [mbind result_bind]; [| reflexivity].
  destruct (subscript rates "MieRate") as [mi |];
    cbn [mbind result_bind]; [| reflexivity].
  unfold amount_after_cap. now rewrite Hef.
Qed.

Lemma efficiency_factor_third_arm (e : Q) (d : Z) :
  efficiency_factor_of e d = efficiency_factor_without_third_arm e d.
Proof.
  unfold efficiency_factor_of, efficiency_factor_without_third_arm.
  repeat case_decide; try reflexivity.
  exfalso. lra.
Qed.

Lemma noise_factor_range (rnd : Q) :
  0 <= rnd -> rnd < 1 -> 0.95 <= noise_factor_of rnd /\ noise_factor_of rnd < 1.05.
Proof. unfold noise_factor_of. intros; split; lra. Qed.

Lemma main_usage (py_int : string -> string + Z) (py_float : string -> string + Q)
    (rnd : Q) (argv : list string) :
  length argv ≠ 4%nat -> main py_int py_float rnd argv = die (Text usage_message).
Proof. intros Hlen. unfold main. case_decide; [reflexivity | contradiction]. Qed.

(** The amount of the five-day trip below, 1075.48125 before rounding, is
    far from a rounding boundary: anything within half a cent of 1075.48
    rounds to it, so the last bits of a binary float do not matter. *)
Lemma rounds_to_1075_48 (x : Q) :
  1075.475 < x -> x < 1075.485 -> round2 x == 1075.48.
Proof.
  intros Hlo Hhi. rewrite (round2_nearest x 107548).
  - reflexivity.
  - change (inject_Z 107548) with (107548 # 1). lra.
  - change (inject_Z 107548) with (107548 # 1). lra.
Qed.

Lemma amount_after_cap_unfold (ef : Q -> Z -> Q) (e : Q) (loc : string)
    (b mi d : Z) (m r : Q) :
  amount_after_cap ef e loc b mi d m r
  = if decide (e < 50)
    then py_min (amount_before_cap ef e loc b mi d m r) (inject_Z (d * 100))
    else amount_before_cap ef e loc b mi d m r.
Proof. reflexivity. Qed.

(** ** The conversions of [int] to [float] *)

Lemma float_of_int_Ok (n : Z) :
  (Z.abs n < float_overflow_threshold)%Z -> float_of_int n = Ok (inject_Z n).
Proof. intros Hn. unfold float_of_int. case_decide; [reflexivity | contradiction]. Qed.

Lemma float_of_int_Raise (n : Z) :
  (float_overflow_threshold <= Z.abs n)%Z -> float_of_int n = Raise OverflowError.
Proof. intros Hn. unfold float_of_int. case_decide; [lia | reflexivity]. Qed.

(** The [int] of the per diem is at most 85 times the days. *)
Lemma per_diem_int_bound (loc : string) (b mi d : Z) :
  table_row loc b mi -> (Z.abs (per_diem_int b mi d) <= 85 * Z.abs d)%Z.
Proof. intros []; unfold per_diem_int; case_decide; lia. Qed.

Lemma efficiency_checked_cases (d : Z) (m : Q) :
  efficiency_checked d m = efficiency_of d m \/
  (efficiency_checked d m = Raise OverflowError /\
   (float_overflow_threshold <= Z.abs d)%Z).
Proof.
  unfold efficiency_checked, efficiency_of.
  case_decide; [| left; reflexivity].
  destruct (decide (Z.abs d < float_overflow_threshold)%Z) as [Hin | Hout].
  - left. rewrite (float_of_int_Ok d Hin). reflexivity.
  - right. rewrite float_of_int_Raise; [| lia]. split; [reflexivity | lia].
Qed.

(** Without noise the function with conversions returns what the exact
    one returns, or raises [OverflowError]; it raises nothing else, and
    raises only when 85 times the days is beyond the range of a float. *)
Lemma calculate_reimbursement_checked_cases (rnd : Q) (d : Z) (m r : Q)
    (usd : bool) :
  (exists v,
     calculate_reimbursement_checked rnd d m r usd false = Ok v /\
     calculate_reimbursement rnd d m r usd false = Ok v) \/
  (calculate_reimbursement_checked rnd d m r usd false = Raise OverflowError /\
   (float_overflow_threshold <= 85 * Z.abs d)%Z).
Proof.
  destruct (capped_amount_with_Ok efficiency_factor_of d m r)
    as (e & b & mi & He & Hrow & Hc).
  destruct (table_row_lookup _ _ _ Hrow) as (rates & Hr & Hb & Hmi).
  pose proof (per_diem_int_bound _ b mi d Hrow) as Hpd.
  unfold calculate_reimbursement_checked.
  destruct (efficiency_checked_cases d m) as [Heq | [Hraise Hbig]].
  - rewrite Heq, He. cbn [mbind result_bind].
    rewrite Hr. cbn [mbind result_bind]. rewrite Hb. cbn [mbind result_bind].
    rewrite Hmi. cbn [mbind result_bind].
    destruct (decide (Z.abs (per_diem_int b mi d) < float_overflow_threshold)%Z)
      as [Hin | Hout].
    + rewrite (float_of_int_Ok _ Hin). left. eexists. split; [reflexivity |].
      unfold calculate_reimbursement, calculate_reimbursement_with.
      rewrite Hc. reflexivity.
    + rewrite float_of_int_Raise; [| lia]. right. split; [reflexivity | lia].
  - rewrite Hraise. right. split; [reflexivity | lia].
Qed.


(** * The claims *)

(** C1 (as stated, refuted): on [days=5, miles=500, receipts=600] without
    noise the function does not return 1078.14. *)
Lemma C1_not_1078_14 :
  ~ exists v, calculate_reimbursement 0 5 500 600 false false = Ok v /\ v == 1078.14.
Proof.
  intros (v & Hv & Heq).
  vm_compute in Hv. injection Hv as <-.
  vm_compute in Heq. discriminate.
Qed.

(** C1 (amended): on [days=5, miles=500, receipts=600] without noise the
    efficiency is exactly 100, the location is Medium, the mileage
    efficiency factor is 1.0, and the function returns exactly 1075.48
    (the per diem is 317.5 * 1.15 = 365.125, the mileage 310 and the receipt
    adjustment 400.35625). *)
Theorem C1_five_day_trip (rnd : Q) (usd : bool) :
  exists e v,
    efficiency_of 5 500 = Ok e /\ e == 100 /\
    infer_location e 5 500 600 = "Medium" /\
    efficiency_factor_of e 5 == 1.0 /\
    per_diem_of 50 15 5 "Medium" == 365.125 /\
    calculate_reimbursement rnd 5 500 600 usd false = Ok v /\ v == 1075.48.
Proof.
  exists (500 / inject_Z 5), 1075.48.
  repeat split; try (vm_compute; reflexivity).
Qed.

(** C2: the arm [efficiency > 300 and trip_duration_days > 1] of the
    efficiency factor is dead: the factor is never 0.90, and the function
    with that arm removed returns the same result on every input. *)
Theorem C2_third_arm_dead :
  (forall (e : Q) (d : Z), ~ efficiency_factor_of e d == 0.90) /\
  (forall (rnd : Q) (d : Z) (m r : Q) (usd noise : bool),
     calculate_reimbursement rnd d m r usd noise
     = calculate_reimbursement_with efficiency_factor_without_third_arm
         rnd d m r usd noise).
Proof.
  split.
  - intros e d. rewrite efficiency_factor_third_arm.
    unfold efficiency_factor_without_third_arm.
    repeat case_decide; intros Heq; vm_compute in Heq; discriminate.
  - intros rnd d m r usd noise.
    unfold calculate_reimbursement, calculate_reimbursement_with.
    rewrite (capped_amount_with_ext efficiency_factor_of
               efficiency_factor_without_third_arm); [reflexivity |].
    intros e. apply efficiency_factor_third_arm.
Qed.

(** C3: for [days >= 1], [miles >= 0], [receipts >= 0] and no noise, when
    [miles / days < 50] the function returns a value at most [days * 100]. *)
Theorem C3_low_effort_cap (rnd : Q) (d : Z) (m r : Q) (usd : bool) :
  (d >= 1)%Z -> 0 <= m -> 0 <= r -> m / inject_Z d < 50 ->
  exists v,
    calculate_reimbursement rnd d m r usd false = Ok v /\ v <= inject_Z d * 100.
Proof.
  intros Hd _ _ Heff.
  destruct (capped_amount_with_Ok efficiency_factor_of d m r)
    as (e & b & mi & He & _ & Hc).
  rewrite efficiency_of_Ok in He. injection He as <-.
  destruct (decide (d > 0)%Z) as [_ | Hneg]; [| lia].
  exists (round2 (amount_after_cap efficiency_factor_of (m / inject_Z d)
                    (infer_location (m / inject_Z d) d m r) b mi d m r)).
  split.
  - unfold calculate_reimbursement, calculate_reimbursement_with.
    rewrite Hc. reflexivity.
  - change (inject_Z d * 100) with (inject_Z d * inject_Z 100).
    rewrite <- inject_Z_mult.
    apply round2_le, amount_after_cap_le, Heff.
Qed.

Lemma C3_low_effort_cap_witness :
  (1 >= 1)%Z /\ 0 <= 10 /\ 0 <= 0 /\ 10 / inject_Z 1 < 50 /\
  exists v,
    calculate_reimbursement 0 1 10 0 false false = Ok v /\ v <= inject_Z 1 * 100.
Proof.
  assert (H1 : (1 >= 1)%Z) by lia.
  assert (H2 : 0 <= 10) by q_closed.
  assert (H3 : 0 <= 0) by q_closed.
  assert (H4 : 10 / inject_Z 1 < 50) by q_closed.
  refine (conj H1 (conj H2 (conj H3 (conj H4 _)))).
  exact (C3_low_effort_cap 0 1 10 0 false H1 H2 H3 H4).
Defined.

(** C4: without noise the result is a function of [(days, miles,
    receipts)] alone: it is the same for every state of the random
    generator and every value of [use_system_date]; and
    [use_system_date] changes nothing with noise either. *)
Theorem C4_deterministic (d : Z) (m r : Q) :
  (forall (rnd rnd' : Q) (usd usd' : bool),
     calculate_reimbursement rnd d m r usd false
     = calculate_reimbursement rnd' d m r usd' false) /\
  (forall (rnd : Q) (noise : bool),
     calculate_reimbursement rnd d m r true noise
     = calculate_reimbursement rnd d m r false noise).
Proof.
  split.
  - intros rnd rnd' usd usd'.
    unfold calculate_reimbursement, calculate_reimbursement_with.
    destruct (capped_amount_with _ d m r); reflexivity.
  - intros rnd noise. reflexivity.
Qed.

(** C5: on every input and for every setting of the flags the function
    returns a value whose hundredfold is an integer. *)
Theorem C5_two_decimals (rnd : Q) (d : Z) (m r : Q) (usd noise : bool) :
  exists v z,
    calculate_reimbursement rnd d m r usd noise = Ok v /\ v * 100 == inject_Z z.
Proof.
  destruct (calculate_reimbursement_with_Ok efficiency_factor_of rnd d m r usd noise)
    as (c & _ & Hv).
  eexists. eexists. split; [exact Hv |].
  apply round2_hundredths.
Qed.

(** C6: the receipt adjustment of the code is the one of the
    specification: [perDiem] under 50 of receipts; [min(perDiem*0.8,
    receipts)] up to 500 of receipts on trips of at most 6 days; otherwise
    [perDiem + 0.15 * min(receipts - perDiem, 200 if efficiency < 100 else
    500)], which is below [perDiem] when [receipts < perDiem]. *)
Theorem C6_receipt_adjustment (pd e : Q) (d : Z) (r : Q) :
  receipt_adjustment_of pd e d r == receipt_adjustment_spec pd e d r /\
  (~ r < 50 -> ~ (r <= 500 /\ (d <= 6)%Z) -> r < pd ->
   receipt_adjustment_of pd e d r < pd).
Proof.
  split.
  - unfold receipt_adjustment_of, receipt_adjustment_spec.
    repeat case_decide; rewrite ?py_min_Qmin; try reflexivity; ring.
  - intros H50 H500 Hlt. unfold receipt_adjustment_of.
    do 2 (case_decide; [contradiction |]).
    pose proof (py_min_le_l (r - pd) (if decide (e < 100) then 200 else 500)).
    lra.
Qed.

Lemma C6_receipt_adjustment_witness :
  ~ 100 < 50 /\ ~ (100 <= 500 /\ (7 <= 6)%Z) /\ 100 < 585 /\
  receipt_adjustment_of 585 10 7 100 < 585.
Proof.
  assert (H1 : ~ 100 < 50) by q_closed.
  assert (H2 : ~ (100 <= 500 /\ (7 <= 6)%Z)) by lia.
  assert (H3 : 100 < 585) by q_closed.
  refine (conj H1 (conj H2 (conj H3 _))).
  exact (proj2 (C6_receipt_adjustment 585 10 7 100) H1 H2 H3).
Defined.




(** C8: an invocation with any number of positional arguments other than
    three writes the usage message on standard error, nothing on standard
    output, and exits with status 1. *)
Theorem C8_usage_error (py_int : string -> string + Z)
    (py_float : string -> string + Q) (rnd : Q) (prog : string)
    (args : list string) :
  length args ≠ 3%nat ->
  let p := main py_int py_float rnd (prog :: args) in
  stderr p = [Text usage_message] /\ exit_status p = 1%Z /\ stdout p = [].
Proof.
  intros Hlen p. subst p.
  rewrite main_usage; [repeat split |].
  cbn [length]. lia.
Qed.

Lemma C8_usage_error_witness :
  length ["5"; "500"] ≠ 3%nat /\
  let p := main (fun _ => inl "int") (fun _ => inl "float") 0
             ("calculate_reimbursement.py" :: ["5"; "500"]) in
  stderr p = [Text usage_message] /\ exit_status p = 1%Z /\ stdout p = [].
Proof.
  assert (H : length ["5"; "500"] ≠ 3%nat) by (simpl; lia).
  split; [exact H |].
  exact (C8_usage_error (fun _ => inl "int") (fun _ => inl "float") 0
           "calculate_reimbursement.py" ["5"; "500"] H).
Defined.

(** C9: the noise of step 9 comes after the cap of step 8.  With the draw
    [rnd] in [[0, 1)], the amount [c] that the noise multiplies is the
    capped one: the smaller of the amount of steps 3 to 7 and
    [days * 100] when the efficiency is under 50, so at most [days * 100]
    there, and the amount of steps 3 to 7 otherwise.  The function with
    noise returns the rounding of [c] times [0.95 + 0.10 * rnd], a factor
    in [[0.95, 1.05)]: the product is not capped again.  So there are
    inputs of efficiency under 50 on which the cap binds, the function
    without noise returns [days * 100], and with noise it returns more. *)
Theorem C9_noise_after_cap :
  (forall (rnd : Q) (d : Z) (m r : Q) (usd : bool),
     0 <= rnd -> rnd < 1 ->
     exists e b mi c,
       efficiency_of d m = Ok e /\
       table_row (infer_location e d m r) b mi /\
       c = (if decide (e < 50)
            then py_min (amount_before_cap efficiency_factor_of e
                           (infer_location e d m r) b mi d m r)
                        (inject_Z (d * 100))
            else amount_before_cap efficiency_factor_of e
                   (infer_location e d m r) b mi d m r) /\
       (e < 50 -> c <= inject_Z d * 100) /\
       capped_amount d m r = Ok c /\
       calculate_reimbursement rnd d m r usd false = Ok (round2 c) /\
       calculate_reimbursement rnd d m r usd true
       = Ok (round2 (c * noise_factor_of rnd)) /\
       noise_factor_of rnd == 0.95 + 0.10 * rnd /\
       0.95 <= noise_factor_of rnd /\ noise_factor_of rnd < 1.05) /\
  (exists (rnd : Q) (d : Z) (m r e : Q) (b mi : Z) (v0 v : Q),
     0 <= rnd /\ rnd < 1 /\ (d >= 1)%Z /\
     efficiency_of d m = Ok e /\ e < 50 /\
     table_row (infer_location e d m r) b mi /\
     inject_Z d * 100 < amount_before_cap efficiency_factor_of e
                          (infer_location e d m r) b mi d m r /\
     capped_amount d m r = Ok (inject_Z (d * 100)) /\
     calculate_reimbursement rnd d m r false false = Ok v0 /\
     v0 == inject_Z d * 100 /\
     calculate_reimbursement rnd d m r false true = Ok v /\
     inject_Z d * 100 < v).
Proof.
  split.
  - intros rnd d m r usd H0 H1.
    destruct (capped_amount_with_Ok efficiency_factor_of d m r)
      as (e & b & mi & He & Hrow & Hc).
    exists e, b, mi. eexists.
    split; [exact He | split; [exact Hrow | split; [reflexivity |]]].
    destruct (noise_factor_range rnd H0 H1) as [Hlo Hhi].
    split.
    { intros Hlow. case_decide; [| contradiction].
      change (inject_Z d * 100) with (inject_Z d * inject_Z 100).
      rewrite <- inject_Z_mult. apply py_min_le_r. }
    split; [rewrite <- amount_after_cap_unfold; exact Hc |].
    unfold calculate_reimbursement, calculate_reimbursement_with.
    rewrite Hc, amount_after_cap_unfold.
    split; [reflexivity | split; [reflexivity | split; [| split; assumption]]].
    unfold noise_factor_of. ring.
  - exists 0.9, 20%Z, 900, 1500, (900 / inject_Z 20), 65%Z, 20%Z,
      2000.00, 2080.00.
    split; [q_closed | split; [q_closed | split; [lia |]]].
    split; [vm_compute; reflexivity | split; [q_closed |]].
    split; [vm_compute; apply row_High |].
    split; [q_closed |].
    split; [vm_compute; reflexivity |].
    split; [vm_compute; reflexivity |].
    split; [vm_compute; reflexivity |].
    split; [vm_compute; reflexivity | q_closed].
Qed.

Lemma C9_noise_after_cap_witness :
  0 <= 0.9 /\ 0.9 < 1 /\
  exists c,
    capped_amount 20 900 1500 = Ok c /\
    c <= inject_Z 20 * 100 /\
    calculate_reimbursement 0.9 20 900 1500 false true
    = Ok (round2 (c * noise_factor_of 0.9)).
Proof.
  assert (H0 : 0 <= 0.9) by q_closed.
  assert (H1 : 0.9 < 1) by q_closed.
  refine (conj H0 (conj H1 _)).
  destruct (proj1 C9_noise_after_cap 0.9 20%Z 900 1500 false H0 H1)
    as (e & b & mi & c & He & _ & _ & Hcap & Hc & _ & Hn & _).
  exists c. split; [exact Hc | split; [| exact Hn]].
  apply Hcap.
  vm_compute in He. injection He as <-. q_closed.
Defined.

(** C10: for [days >= 1], [miles >= 0], [receipts >= 0] and no noise the
    function returns a value that is not negative. *)
Theorem C10_nonnegative (rnd : Q) (d : Z) (m r : Q) (usd : bool) :
  (d >= 1)%Z -> 0 <= m -> 0 <= r ->
  exists v, calculate_reimbursement rnd d m r usd false = Ok v /\ 0 <= v.
Proof.
  intros Hd Hm Hr.
  destruct (capped_amount_with_Ok efficiency_factor_of d m r)
    as (e & b & mi & _ & Hrow & Hc).
  eexists. split.
  - unfold calculate_reimbursement, calculate_reimbursement_with.
    rewrite Hc. reflexivity.
  - apply round2_nonneg, amount_after_cap_nonneg; assumption.
Qed.

Lemma C10_nonnegative_witness :
  (5 >= 1)%Z /\ 0 <= 500 /\ 0 <= 600 /\
  exists v, calculate_reimbursement 0 5 500 600 false false = Ok v /\ 0 <= v.
Proof.
  assert (H1 : (5 >= 1)%Z) by lia.
  assert (H2 : 0 <= 500) by q_closed.
  assert (H3 : 0 <= 600) by q_closed.
  refine (conj H1 (conj H2 (conj H3 _))).
  exact (C10_nonnegative 0 5 500 600 false H1 H2 H3).
Defined.

(** * Further properties of the entry point *)

Section MainProperties.
Variable py_int : string -> string + Z.
Variable py_float : string -> string + Q.
Variable rnd : Q.

Lemma main_four (prog a1 a2 a3 : string) :
  main py_int py_float rnd [prog; a1; a2; a3] = try_block py_int py_float rnd a1 a2 a3.
Proof. reflexivity. Qed.

(** The [try] block prints the amount, reports a [ValueError], or is left
    by the [OverflowError] of days beyond the range of a float. *)
Lemma try_block_cases (a1 a2 a3 : string) :
  (exists v, try_block py_int py_float rnd a1 a2 a3 = printed v) \/
  (exists e, try_block py_int py_float rnd a1 a2 a3
             = failed_with ("Error: Invalid input format (" ++ e ++ ")")) \/
  (try_block py_int py_float rnd a1 a2 a3 = die (Traceback OverflowError) /\
   exists d, py_int a1 = inr d /\ (float_overflow_threshold <= 85 * Z.abs d)%Z).
Proof.
  unfold try_block.
  destruct (py_int a1) as [e | d]; [right; left; exists e; reflexivity |].
  destruct (py_float a2) as [e | m]; [right; left; exists e; reflexivity |].
  destruct (py_float a3) as [e | r]; [right; left; exists e; reflexivity |].
  destruct (calculate_reimbursement_checked_cases rnd d m r false)
    as [(v & Hv & _) | [Hraise Hbig]].
  - rewrite Hv. left. exists v. reflexivity.
  - rewrite Hraise. right. right. split; [reflexivity |].
    exists d. split; [reflexivity | exact Hbig].
Qed.

(** X1: with three arguments, the first one that does not parse (the
    days as an integer, then the miles, then the receipts as floats) is
    the one reported: the run writes [Error: Invalid input format (e)]
    with the message [e] of that [ValueError] on standard error, nothing
    on standard output, and exits with status 1. *)
Theorem X1_main_invalid_input (prog a1 a2 a3 e : string) :
  py_int a1 = inl e \/
  (exists d, py_int a1 = inr d /\ py_float a2 = inl e) \/
  (exists d m, py_int a1 = inr d /\ py_float a2 = inr m /\ py_float a3 = inl e) ->
  main py_int py_float rnd [prog; a1; a2; a3]
  = {| stdout := [];
       stderr := [Text ("Error: Invalid input format (" ++ e ++ ")")];
       exit_status := 1 |}.
Proof.
  intros Hbad. rewrite main_four. unfold try_block.
  destruct Hbad as [H1 | [(d & H1 & H2) | (d & m & H1 & H2 & H3)]].
  - rewrite H1. reflexivity.
  - rewrite H1, H2. reflexivity.
  - rewrite H1, H2, H3. reflexivity.
Qed.

(** X2: with three arguments that parse and days within the range of a
    float (85 times their magnitude under [2^1024 - 2^970]), the run prints
    exactly one value, the one [calculate_reimbursement] returns without
    noise, writes nothing on standard error and exits with status 0. *)
Theorem X2_main_prints_amount (prog a1 a2 a3 : string) (d : Z) (m r : Q) :
  py_int a1 = inr d -> py_float a2 = inr m -> py_float a3 = inr r ->
  (85 * Z.abs d < float_overflow_threshold)%Z ->
  exists v,
    calculate_reimbursement_checked rnd d m r false false = Ok v /\
    calculate_reimbursement rnd d m r false false = Ok v /\
    main py_int py_float rnd [prog; a1; a2; a3]
    = {| stdout := [Repr v]; stderr := []; exit_status := 0 |}.
Proof.
  intros H1 H2 H3 Hrange.
  destruct (calculate_reimbursement_checked_cases rnd d m r false)
    as [(v & Hv & Hexact) | [_ Hbig]]; [| lia].
  exists v. split; [exact Hv | split; [exact Hexact |]].
  rewrite main_four. unfold try_block.
  rewrite H1, H2, H3, Hv. reflexivity.
Qed.

(** X3: whatever the arguments and whatever [int] and [float] answer, a
    run ends in one of three ways: one amount on standard output, nothing
    on standard error and status 0; nothing on standard output, one line
    of text on standard error and status 1; or the traceback of an
    [OverflowError] and status 1, which happens only with three arguments
    whose days parse to an integer beyond the range of a float.  No other
    exception leaves [main], and the state of the random generator does
    not matter. *)
Theorem X3_main_outcomes (argv : list string) :
  ((exists v, main py_int py_float rnd argv = printed v) \/
   (exists s, main py_int py_float rnd argv = failed_with s) \/
   (main py_int py_float rnd argv = die (Traceback OverflowError) /\
    exists prog a1 a2 a3 d,
      argv = [prog; a1; a2; a3] /\ py_int a1 = inr d /\
      (float_overflow_threshold <= 85 * Z.abs d)%Z)) /\
  (forall rnd', main py_int py_float rnd' argv = main py_int py_float rnd argv).
Proof.
  destruct (decide (length argv = 4%nat)) as [Hlen | Hlen].
  - destruct argv as [| prog [| a1 [| a2 [| a3 [| a4 rest]]]]]; try discriminate Hlen.
    split.
    + rewrite main_four.
      destruct (try_block_cases a1 a2 a3)
        as [Hok | [(e & He) | (Hov & d & Hd & Hbig)]].
      * left. exact Hok.
      * right. left. eexists. exact He.
      * right. right. split; [exact Hov |].
        exists prog, a1, a2, a3, d. split; [reflexivity | split; assumption].
    + intros rnd'. reflexivity.
  - split.
    + right. left. exists usage_message. now apply main_usage.
    + intros rnd'. now rewrite !main_usage.
Qed.
End MainProperties.

Lemma X1_main_invalid_input_witness :
  (exists d, (fun _ : string => inr 5%Z : string + Z) "5" = inr d /\
             (fun _ : string => inl "could not convert" : string + Q) "abc"
             = inl "could not convert") /\
  main (fun _ => inr 5%Z) (fun _ => inl "could not convert") 0
       ["prog"; "5"; "abc"; "600"]
  = {| stdout := [];
       stderr := [Text "Error: Invalid input format (could not convert)"];
       exit_status := 1 |}.
Proof.
  assert (H : exists d, (fun _ : string => inr 5%Z : string + Z) "5" = inr d /\
                        (fun _ : string => inl "could not convert" : string + Q) "abc"
                        = inl "could not convert").
  { exists 5%Z. split; reflexivity. }
  split; [exact H |].
  exact (X1_main_invalid_input (fun _ => inr 5%Z) (fun _ => inl "could not convert")
           0 "prog" "5" "abc" "600" "could not convert" (or_intror (or_introl H))).
Defined.

Lemma X2_main_prints_amount_witness :
  (fun _ : string => inr 5%Z : string + Z) "5" = inr 5%Z /\
  (fun s : string => if decide (s = "500") then inr 500 else inr 600 : string + Q)
    "500" = inr 500 /\
  (fun s : string => if decide (s = "500") then inr 500 else inr 600 : string + Q)
    "600" = inr 600 /\
  (85 * Z.abs 5 < float_overflow_threshold)%Z /\
  exists v,
    calculate_reimbursement_checked 0 5 500 600 false false = Ok v /\
    calculate_reimbursement 0 5 500 600 false false = Ok v /\
    main (fun _ => inr 5%Z)
         (fun s => if decide (s = "500") then inr 500 else inr 600) 0
         ["prog"; "5"; "500"; "600"]
    = {| stdout := [Repr v]; stderr := []; exit_status := 0 |}.
Proof.
  assert (H1 : (fun _ : string => inr 5%Z : string + Z) "5" = inr 5%Z)
    by reflexivity.
  assert (H2 : (fun s : string => if decide (s = "500") then inr 500 else inr 600
                                  : string + Q) "500" = inr 500) by reflexivity.
  assert (H3 : (fun s : string => if decide (s = "500") then inr 500 else inr 600
                                  : string + Q) "600" = inr 600) by reflexivity.
  assert (H4 : (85 * Z.abs 5 < float_overflow_threshold)%Z) by reflexivity.
  refine (conj H1 (conj H2 (conj H3 (conj H4 _)))).
  exact (X2_main_prints_amount (fun _ => inr 5%Z)
           (fun s => if decide (s = "500") then inr 500 else inr 600)
           0 "prog" "5" "500" "600" 5%Z 500 600 H1 H2 H3 H4).
Defined.

(** * Further properties of the calculation *)

(** ** Rounding: error, monotonicity, whole amounts *)

Lemma round_half_even_error (x : Q) :
  x - (1 # 2) <= inject_Z (round_half_even x) /\
  inject_Z (round_half_even x) <= x + (1 # 2).
Proof.
  pose proof (Qfloor_le x) as Hfl.
  pose proof (Qlt_floor x) as Hfu.
  rewrite inject_Z_plus in Hfu. change (inject_Z 1) with 1 in Hfu.
  unfold round_half_even.
  repeat case_decide; try destruct (Z.even _);
    rewrite ?inject_Z_plus; change (inject_Z 1) with 1; split; lra.
Qed.

Lemma round_half_even_mono (x y : Q) :
  x <= y -> (round_half_even x <= round_half_even y)%Z.
Proof.
  intros Hxy.
  pose proof (Qfloor_resp_le x y Hxy) as Hfl.
  pose proof (round_half_even_floor x) as Hx.
  pose proof (round_half_even_floor y) as Hy.
  destruct (Z.eq_dec (Qfloor x) (Qfloor y)) as [Heq | Hne]; [| lia].
  unfold round_half_even in *. rewrite Heq in *.
  repeat case_decide; try destruct (Z.even _); try lia; exfalso; lra.
Qed.

Lemma round2_mono (x y : Q) : x <= y -> round2 x <= round2 y.
Proof.
  intros Hxy.
  assert (H : (round_half_even (x * 100) <= round_half_even (y * 100))%Z)
    by (apply round_half_even_mono; lra).
  apply inject_Z_le in H.
  pose proof (round2_hundredths x). pose proof (round2_hundredths y). lra.
Qed.

(** Rounding moves an amount by at most half a cent. *)
Lemma round2_error (x : Q) : x - 0.005 <= round2 x /\ round2 x <= x + 0.005.
Proof.
  destruct (round_half_even_error (x * 100)) as [Hlo Hhi].
  pose proof (round2_hundredths x). split; lra.
Qed.

(** A whole number of units is not changed by the rounding. *)
Lemma round2_whole (n : Z) : round2 (inject_Z n) == inject_Z n.
Proof.
  apply Qle_antisym.
  - apply round2_le. lra.
  - assert (H : (n * 100 <= round_half_even (inject_Z n * 100))%Z).
    { apply round_half_even_ge. rewrite inject_Z_mult.
      change (inject_Z 100) with 100. lra. }
    apply inject_Z_le in H. rewrite inject_Z_mult in H.
    change (inject_Z 100) with 100 in H.
    pose proof (round2_hundredths (inject_Z n)). lra.
Qed.

(** ** Bounds of the components *)

Ltac inject_Z_consts :=
  repeat match goal with
         | |- context [inject_Z (Zpos ?p)] =>
             change (inject_Z (Zpos p)) with (Zpos p # 1)
         | |- context [inject_Z Z0] => change (inject_Z Z0) with 0
         end.

Lemma efficiency_lt_miles (d : Z) (m B : Q) :
  (d >= 1)%Z -> m / inject_Z d < B -> m < B * inject_Z d.
Proof.
  intros Hd He.
  assert (HD : 0 < inject_Z d) by (apply (inject_Z_lt 0); lia).
  assert (Hm : m == m / inject_Z d * inject_Z d) by (field; lra).
  rewrite Hm at 1. now apply Qmult_lt_compat_r.
Qed.

(** Under 50 miles a day the location is Low unless the miles and the
    receipts make it High. *)
Lemma infer_location_Low (e : Q) (d : Z) (m r : Q) :
  e < 50 -> ~ (m > 800 /\ r > 1000) -> infer_location e d m r = "Low".
Proof.
  intros He Hhigh. unfold infer_location.
  case_decide as H1; [destruct H1 as [H1 | H1]; [exfalso; lra | contradiction] |].
  case_decide as H2; [reflexivity |].
  exfalso. apply H2. now left.
Qed.

Lemma per_diem_low_le (d : Z) (loc : string) :
  (d >= 1)%Z -> per_diem_of 15 5 d loc <= 23 * inject_Z d.
Proof.
  intros Hd.
  assert (Hd' : 1 <= inject_Z d) by (apply (inject_Z_le 1); lia).
  unfold per_diem_of, duration_factor_of.
  repeat case_decide; subst; push_inject; inject_Z_consts; try lia; lra.
Qed.

Lemma mileage_tiers_le (m B : Q) : 0 <= B -> 0.7 * m <= B -> mileage_tiers m <= B.
Proof. intros HB Hm. unfold mileage_tiers. repeat case_decide; lra. Qed.

Lemma receipt_adjustment_le (pd e : Q) (d : Z) (r : Q) :
  0 <= pd ->
  receipt_adjustment_of pd e d r <= pd + 75 /\
  (e < 100 -> receipt_adjustment_of pd e d r <= pd + 30).
Proof.
  intros Hpd. unfold receipt_adjustment_of, py_min.
  repeat case_decide; split; intros; lra.
Qed.

(** In the Low location under 50 miles a day, steps 3 to 7 stay under
    100 a day. *)
Lemma amount_before_cap_Low_le (d : Z) (m r e : Q) :
  (d >= 1)%Z -> e < 50 -> m < 50 * inject_Z d ->
  amount_before_cap efficiency_factor_of e "Low" 15 5 d m r <= inject_Z (d * 100).
Proof.
  intros Hd He Hm.
  assert (Hd' : 1 <= inject_Z d) by (apply (inject_Z_le 1); lia).
  pose proof (per_diem_low_le d "Low" Hd) as Hpd.
  pose proof (per_diem_nonneg _ _ _ _ row_Low Hd) as Hpd0.
  assert (Hmt : mileage_tiers m <= 35 * inject_Z d)
    by (apply mileage_tiers_le; lra).
  pose proof (mileage_tiers_nonneg m) as Hmt0.
  destruct (receipt_adjustment_le (per_diem_of 15 5 d "Low") e d r Hpd0) as [_ Hra].
  assert (He' : e < 100) by lra. specialize (Hra He').
  rewrite inject_Z_mult. change (inject_Z 100) with 100.
  unfold amount_before_cap, efficiency_factor_of, cycle_factor_of.
  repeat case_decide; try lra;
    match goal with
    | H : ~ (_ = _ /\ _) |- _ => exfalso; apply H; split; [reflexivity | lra]
    | H : _ /\ _ |- _ => exfalso; lra
    end.
Qed.

(** ** The cap of step 8 *)

(** Without noise the function returns the rounding of the amount of steps
    3 to 8, at the efficiency of step 1 and at a row of the table. *)
Lemma calculate_reimbursement_plain (rnd : Q) (d : Z) (m r : Q) (usd : bool) :
  exists e b mi,
    efficiency_of d m = Ok e /\
    table_row (infer_location e d m r) b mi /\
    calculate_reimbursement rnd d m r usd false
    = Ok (round2 (amount_after_cap efficiency_factor_of e
                    (infer_location e d m r) b mi d m r)).
Proof.
  destruct (capped_amount_with_Ok efficiency_factor_of d m r)
    as (e & b & mi & He & Hrow & Hc).
  exists e, b, mi. split; [exact He | split; [exact Hrow |]].
  unfold calculate_reimbursement, calculate_reimbursement_with.
  rewrite Hc. reflexivity.
Qed.

Lemma efficiency_of_pos (d : Z) (m e : Q) :
  (d >= 1)%Z -> efficiency_of d m = Ok e -> e = m / inject_Z d.
Proof.
  intros Hd He. rewrite efficiency_of_Ok in He.
  destruct (decide (d > 0)%Z); [congruence | lia].
Qed.

Lemma efficiency_of_nonpos (d : Z) (m e : Q) :
  (d <= 0)%Z -> efficiency_of d m = Ok e -> e = 0.
Proof.
  intros Hd He. rewrite efficiency_of_Ok in He.
  destruct (decide (d > 0)%Z); [lia | congruence].
Qed.

(** X4: on a trip of at least one day, the cap of step 8 changes nothing
    unless the trip has more than 800 miles and more than 1000 of receipts;
    in particular it changes nothing on any trip of 1 to 16 days.  The
    function then returns the rounding of the uncapped amount of steps 3
    to 7. *)
Theorem X4_cap_idle (rnd : Q) (d : Z) (m r : Q) (usd : bool) :
  (d >= 1)%Z ->
  (d <= 16)%Z \/ ~ (m > 800 /\ r > 1000) ->
  exists e b mi,
    efficiency_of d m = Ok e /\
    table_row (infer_location e d m r) b mi /\
    calculate_reimbursement rnd d m r usd false
    = Ok (round2 (amount_before_cap efficiency_factor_of e
                    (infer_location e d m r) b mi d m r)).
Proof.
  intros Hd Hcase.
  destruct (calculate_reimbursement_plain rnd d m r usd)
    as (e & b & mi & He & Hrow & Hv).
  exists e, b, mi. split; [exact He | split; [exact Hrow |]].
  rewrite Hv, amount_after_cap_unfold.
  case_decide as Hlow; [| reflexivity].
  pose proof (efficiency_of_pos d m e Hd He) as Heq.
  assert (Hm : m < 50 * inject_Z d)
    by (apply efficiency_lt_miles; [exact Hd | now rewrite <- Heq]).
  assert (Hhigh : ~ (m > 800 /\ r > 1000)).
  { destruct Hcase as [H16 | Hn]; [| exact Hn].
    intros [Hm800 _]. apply (inject_Z_le d 16) in H16.
    change (inject_Z 16) with 16 in H16. lra. }
  pose proof (infer_location_Low e d m r Hlow Hhigh) as Hloc.
  rewrite Hloc in *. inversion Hrow; subst b mi.
  pose proof (amount_before_cap_Low_le d m r e Hd Hlow Hm) as Hle.
  unfold py_min. case_decide; [exfalso; lra | reflexivity].
Qed.

Lemma X4_cap_idle_witness :
  (14 >= 1)%Z /\ ((14 <= 16)%Z \/ ~ (600 > 800 /\ 2000 > 1000)) /\
  exists e b mi,
    efficiency_of 14 600 = Ok e /\
    table_row (infer_location e 14 600 2000) b mi /\
    calculate_reimbursement 0 14 600 2000 false false
    = Ok (round2 (amount_before_cap efficiency_factor_of e
                    (infer_location e 14 600 2000) b mi 14 600 2000)).
Proof.
  assert (H1 : (14 >= 1)%Z) by lia.
  assert (H2 : (14 <= 16)%Z \/ ~ (600 > 800 /\ 2000 > 1000)) by (left; lia).
  refine (conj H1 (conj H2 _)).
  exact (X4_cap_idle 0 14 600 2000 false H1 H2).
Defined.

(** X5: capping and rounding commute.  Without noise, under 50 miles a
    day the function returns the smaller of the rounded uncapped amount
    and [days * 100]; from 50 miles a day on it returns the rounded
    uncapped amount. *)
Theorem X5_round_then_cap (rnd : Q) (d : Z) (m r : Q) (usd : bool) :
  exists e b mi v,
    efficiency_of d m = Ok e /\
    table_row (infer_location e d m r) b mi /\
    calculate_reimbursement rnd d m r usd false = Ok v /\
    v == if decide (e < 50)
         then Qmin (round2 (amount_before_cap efficiency_factor_of e
                              (infer_location e d m r) b mi d m r))
                   (inject_Z d * 100)
         else round2 (amount_before_cap efficiency_factor_of e
                        (infer_location e d m r) b mi d m r).
Proof.
  destruct (calculate_reimbursement_plain rnd d m r usd)
    as (e & b & mi & He & Hrow & Hv).
  exists e, b, mi. eexists.
  split; [exact He | split; [exact Hrow | split; [exact Hv |]]].
  rewrite amount_after_cap_unfold.
  case_decide as Hlow; [| reflexivity].
  set (x := amount_before_cap _ _ _ _ _ _ _ _).
  pose proof (round2_whole (d * 100)) as Hw.
  rewrite inject_Z_mult in Hw. change (inject_Z 100) with 100 in Hw.
  rewrite inject_Z_mult. change (inject_Z 100) with 100.
  unfold py_min. case_decide as Hcmp.
  - rewrite Hw, Q.min_r; [reflexivity |].
    rewrite <- Hw. apply round2_mono. lra.
  - rewrite Q.min_l; [reflexivity |].
    rewrite <- Hw. apply round2_mono. lra.
Qed.

(** X6: the guard of step 1 makes the efficiency 0 when [days <= 0], so
    the cap applies: without noise the function returns at most
    [days * 100], never a positive amount; and for [days = 0] with miles
    and receipts that are not negative it returns 0. *)
Theorem X6_no_days (rnd : Q) (d : Z) (m r : Q) (usd : bool) :
  (d <= 0)%Z ->
  exists v,
    calculate_reimbursement rnd d m r usd false = Ok v /\
    v <= inject_Z d * 100 /\ v <= 0 /\
    (d = 0%Z -> 0 <= m -> 0 <= r -> v == 0).
Proof.
  intros Hd.
  destruct (calculate_reimbursement_plain rnd d m r usd)
    as (e & b & mi & He & Hrow & Hv).
  pose proof (efficiency_of_nonpos d m e Hd He) as ->.
  eexists. split; [exact Hv |].
  assert (Hcap : round2 (amount_after_cap efficiency_factor_of 0
                           (infer_location 0 d m r) b mi d m r)
                 <= inject_Z d * 100).
  { change (inject_Z d * 100) with (inject_Z d * inject_Z 100).
    rewrite <- inject_Z_mult.
    apply round2_le, amount_after_cap_le. lra. }
  assert (Hd' : inject_Z d <= 0) by (apply (inject_Z_le d 0); lia).
  split; [exact Hcap | split; [lra |]].
  intros -> Hm Hr.
  apply Qle_antisym; [exact Hcap |].
  apply round2_nonneg.
  rewrite amount_after_cap_unfold.
  assert (Hsum : 0 <= amount_before_cap efficiency_factor_of 0
                        (infer_location 0 0 m r) b mi 0 m r).
  { unfold amount_before_cap.
    assert (Hpd : per_diem_of b mi 0 (infer_location 0 0 m r) == 0).
    { unfold per_diem_of. case_decide; [lia |].
      rewrite Z.mul_0_r. change (inject_Z 0) with 0. ring. }
    apply Qmult_le_0_compat; [| apply cycle_factor_nonneg].
    pose proof (Qmult_le_0_compat _ _ (mileage_tiers_nonneg m)
                  (efficiency_factor_nonneg 0 0)).
    assert (Hpd0 : 0 <= per_diem_of b mi 0 (infer_location 0 0 m r)) by lra.
    pose proof (receipt_adjustment_nonneg _ 0 0%Z r Hpd0 Hr).
    lra. }
  case_decide; [| exact Hsum].
  apply py_min_glb; [exact Hsum | q_closed].
Qed.

Lemma X6_no_days_witness :
  (0 <= 0)%Z /\
  exists v, calculate_reimbursement 0 0 120 30 false false = Ok v /\ v == 0.
Proof.
  assert (H : (0 <= 0)%Z) by lia.
  assert (Hm : 0 <= 120) by q_closed.
  assert (Hr : 0 <= 30) by q_closed.
  refine (conj H _).
  destruct (X6_no_days 0 0 120 30 false H) as (v & Hv & _ & _ & H0).
  exists v. exact (conj Hv (H0 eq_refl Hm Hr)).
Defined.

(** ** The components *)

(** X7: the test [efficiency < 100] of step 6 is redundant: a location
    inferred as Low always has an efficiency under 100, so the cycle
    factor is 0.85 exactly on the Low location. *)
Theorem X7_cycle_factor_by_location (e : Q) (d : Z) (m r : Q) :
  cycle_factor_of (infer_location e d m r) e
  = if decide (infer_location e d m r = "Low") then 1.0 * 0.85 else 1.0.
Proof.
  unfold cycle_factor_of, infer_location.
  repeat case_decide; try reflexivity; try discriminate;
    exfalso; intuition (try discriminate; try lra).
Qed.

(** X8: the tiered mileage of step 4 never decreases when the miles
    increase. *)
Theorem X8_mileage_monotone (m1 m2 : Q) :
  m1 <= m2 -> mileage_tiers m1 <= mileage_tiers m2.
Proof. intros Hm. unfold mileage_tiers. repeat case_decide; lra. Qed.

Lemma X8_mileage_monotone_witness :
  99 <= 101 /\ mileage_tiers 99 <= mileage_tiers 101.
Proof.
  assert (H : 99 <= 101) by q_closed.
  exact (conj H (X8_mileage_monotone 99 101 H)).
Defined.

(** X9: from 50 miles on, the tiered mileage of step 4 pays between 0.50
    and 0.70 a mile overall; under 50 miles it pays nothing. *)
Theorem X9_mileage_rate (m : Q) :
  (m < 50 -> mileage_tiers m == 0) /\
  (50 <= m -> 0.50 * m <= mileage_tiers m /\ mileage_tiers m <= 0.70 * m).
Proof.
  unfold mileage_tiers. split; intros Hm; repeat case_decide;
    try (exfalso; lra); try split; try lra; reflexivity.
Qed.

Lemma X9_mileage_rate_witness :
  (10 < 50 /\ mileage_tiers 10 == 0) /\
  (50 <= 1000 /\ 0.50 * 1000 <= mileage_tiers 1000
              /\ mileage_tiers 1000 <= 0.70 * 1000).
Proof.
  assert (H1 : 10 < 50) by q_closed.
  assert (H2 : 50 <= 1000) by q_closed.
  exact (conj (conj H1 (proj1 (X9_mileage_rate 10) H1))
              (conj H2 (proj2 (X9_mileage_rate 1000) H2))).
Defined.

(** X10: a small receipt costs money.  On a trip of at most 6 days with a
    positive per diem, receipts from 50 to 500 give a strictly smaller
    receipt adjustment than receipts under 50. *)
Theorem X10_receipts_penalty (pd e : Q) (d : Z) (r r' : Q) :
  0 < pd -> (d <= 6)%Z -> r < 50 -> 50 <= r' -> r' <= 500 ->
  receipt_adjustment_of pd e d r' < receipt_adjustment_of pd e d r.
Proof.
  intros Hpd Hd Hr Hr1 Hr2. unfold receipt_adjustment_of.
  case_decide; [exfalso; lra |].
  case_decide as H2; [| exfalso; apply H2; split; [lra | lia]].
  case_decide; [| contradiction].
  pose proof (py_min_le_l (pd * 0.8) r'). lra.
Qed.

Lemma X10_receipts_penalty_witness :
  0 < 20 /\ (1 <= 6)%Z /\ 49 < 50 /\ 50 <= 50 /\ 50 <= 500 /\
  receipt_adjustment_of 20 10 1 50 < receipt_adjustment_of 20 10 1 49.
Proof.
  assert (H1 : 0 < 20) by q_closed.
  assert (H2 : (1 <= 6)%Z) by lia.
  assert (H3 : 49 < 50) by q_closed.
  assert (H4 : 50 <= 50) by q_closed.
  assert (H5 : 50 <= 500) by q_closed.
  refine (conj H1 (conj H2 (conj H3 (conj H4 (conj H5 _))))).
  exact (X10_receipts_penalty 20 10 1 49 50 H1 H2 H3 H4 H5).
Defined.

(** X11: whatever the receipts that are not negative, the receipt
    adjustment of step 5 lies between 0 and the per diem plus 75, and
    plus 30 only when the efficiency is under 100. *)
Theorem X11_receipts_bounded (pd e : Q) (d : Z) (r : Q) :
  0 <= pd -> 0 <= r ->
  0 <= receipt_adjustment_of pd e d r /\
  receipt_adjustment_of pd e d r <= pd + (if decide (e < 100) then 30 else 75).
Proof.
  intros Hpd Hr. split; [now apply receipt_adjustment_nonneg |].
  destruct (receipt_adjustment_le pd e d r Hpd) as [H75 H30].
  case_decide; [now apply H30 | exact H75].
Qed.

Lemma X11_receipts_bounded_witness :
  0 <= 100 /\ 0 <= 2000 /\
  0 <= receipt_adjustment_of 100 150 3 2000 /\
  receipt_adjustment_of 100 150 3 2000
  <= 100 + (if decide (150 < 100) then 30 else 75).
Proof.
  assert (H1 : 0 <= 100) by q_closed.
  assert (H2 : 0 <= 2000) by q_closed.
  refine (conj H1 (conj H2 _)).
  exact (X11_receipts_bounded 100 150 3 2000 H1 H2).
Defined.

(** ** Rounding, noise and the smallest amount *)

(** X12: without noise the returned value is within half a cent of the
    capped amount of steps 1 to 8, on every input. *)
Theorem X12_rounding_error (rnd : Q) (d : Z) (m r : Q) (usd : bool) :
  exists c v,
    capped_amount d m r = Ok c /\
    calculate_reimbursement rnd d m r usd false = Ok v /\
    c - 0.005 <= v /\ v <= c + 0.005.
Proof.
  destruct (calculate_reimbursement_with_Ok efficiency_factor_of rnd d m r usd false)
    as (c & Hc & Hv).
  exists c, (round2 c).
  split; [exact Hc | split; [exact Hv | apply round2_error]].
Qed.

(** X13: with noise, for [days >= 1], miles and receipts that are not
    negative and a draw in [[0, 1)], the returned value is within 5% of
    the capped amount, up to half a cent of rounding. *)
Theorem X13_noise_within_five_percent (rnd : Q) (d : Z) (m r : Q) (usd : bool) :
  (d >= 1)%Z -> 0 <= m -> 0 <= r -> 0 <= rnd -> rnd < 1 ->
  exists c v,
    capped_amount d m r = Ok c /\
    calculate_reimbursement rnd d m r usd true = Ok v /\
    0.95 * c - 0.005 <= v /\ v <= 1.05 * c + 0.005.
Proof.
  intros Hd Hm Hr H0 H1.
  destruct (capped_amount_with_Ok efficiency_factor_of d m r)
    as (e & b & mi & _ & Hrow & Hc).
  pose proof (amount_after_cap_nonneg e _ b mi d m r Hrow Hd Hm Hr) as Hc0.
  set (c := amount_after_cap _ _ _ _ _ _ _ _) in *.
  exists c, (round2 (c * noise_factor_of rnd)).
  split; [exact Hc | split].
  - unfold calculate_reimbursement, calculate_reimbursement_with.
    unfold capped_amount_with in *. rewrite Hc. reflexivity.
  - destruct (noise_factor_range rnd H0 H1) as [Hlo Hhi].
    destruct (round2_error (c * noise_factor_of rnd)) as [Hrl Hrh].
    assert (Hl : c * 0.95 <= c * noise_factor_of rnd).
    { rewrite (Qmult_comm c 0.95), (Qmult_comm c (noise_factor_of rnd)).
      now apply Qmult_le_compat_r. }
    assert (Hh : c * noise_factor_of rnd <= c * 1.05).
    { rewrite (Qmult_comm c 1.05), (Qmult_comm c (noise_factor_of rnd)).
      apply Qmult_le_compat_r; [lra | exact Hc0]. }
    split; lra.
Qed.

Lemma X13_noise_within_five_percent_witness :
  (5 >= 1)%Z /\ 0 <= 500 /\ 0 <= 600 /\ 0 <= 0.5 /\ 0.5 < 1 /\
  exists c v,
    capped_amount 5 500 600 = Ok c /\
    calculate_reimbursement 0.5 5 500 600 false true = Ok v /\
    0.95 * c - 0.005 <= v /\ v <= 1.05 * c + 0.005.
Proof.
  assert (H1 : (5 >= 1)%Z) by lia.
  assert (H2 : 0 <= 500) by q_closed.
  assert (H3 : 0 <= 600) by q_closed.
  assert (H4 : 0 <= 0.5) by q_closed.
  assert (H5 : 0.5 < 1) by q_closed.
  refine (conj H1 (conj H2 (conj H3 (conj H4 (conj H5 _))))).
  exact (X13_noise_within_five_percent 0.5 5 500 600 false H1 H2 H3 H4 H5).
Defined.

Lemma per_diem_ge_20 (loc : string) (b mi d : Z) :
  table_row loc b mi -> (d >= 1)%Z -> 20 <= per_diem_of b mi d loc.
Proof.
  intros Hrow Hd.
  assert (Hd' : 1 <= inject_Z d) by (apply (inject_Z_le 1); lia).
  unfold per_diem_of, duration_factor_of.
  destruct Hrow; repeat case_decide;
    try (assert (2 <= inject_Z d) by (apply (inject_Z_le 2); lia));
    try (assert (8 <= inject_Z d) by (apply (inject_Z_le 8); lia));
    try (assert (d = 1%Z) by lia);
    subst; try discriminate; try lia;
    push_inject; inject_Z_consts; lra.
Qed.

Lemma receipt_adjustment_ge_16 (pd e : Q) (d : Z) (r : Q) :
  20 <= pd -> 0 <= r -> 16 <= receipt_adjustment_of pd e d r.
Proof.
  intros Hpd Hr. unfold receipt_adjustment_of, py_min.
  repeat case_decide; lra.
Qed.

(** X14: for [days >= 1], miles and receipts that are not negative and no
    noise, the function returns at least 30.60: the per diem is at least
    20 on every row of the table, the receipt adjustment at least 16, the
    mileage is not negative and the cycle factor is at least 0.85.  The
    bound is reached at [days=1, miles=0, receipts=60]. *)
Theorem X14_smallest_amount :
  (forall (rnd : Q) (d : Z) (m r : Q) (usd : bool),
     (d >= 1)%Z -> 0 <= m -> 0 <= r ->
     exists v, calculate_reimbursement rnd d m r usd false = Ok v /\ 30.60 <= v) /\
  (forall (rnd : Q) (usd : bool),
     calculate_reimbursement rnd 1 0 60 usd false = Ok 30.60).
Proof.
  split; [| intros rnd usd; vm_compute; reflexivity].
  intros rnd d m r usd Hd Hm Hr.
  destruct (calculate_reimbursement_plain rnd d m r usd)
    as (e & b & mi & _ & Hrow & Hv).
  eexists. split; [exact Hv |].
  assert (Hfix : round2 30.60 = 30.60) by (vm_compute; reflexivity).
  rewrite <- Hfix at 1. apply round2_mono.
  pose proof (per_diem_ge_20 _ _ _ _ Hrow Hd) as Hpd.
  pose proof (Qmult_le_0_compat _ _ (mileage_tiers_nonneg m)
                (efficiency_factor_nonneg e d)) as Hmil.
  pose proof (receipt_adjustment_ge_16 _ e d r Hpd Hr) as Hra.
  assert (Hd' : 1 <= inject_Z d) by (apply (inject_Z_le 1); lia).
  assert (Hsum : 30.60 <= amount_before_cap efficiency_factor_of e
                            (infer_location e d m r) b mi d m r).
  { unfold amount_before_cap, cycle_factor_of. case_decide; lra. }
  rewrite amount_after_cap_unfold.
  case_decide; [| exact Hsum].
  apply py_min_glb; [exact Hsum |].
  rewrite inject_Z_mult. change (inject_Z 100) with 100. lra.
Qed.

Lemma X14_smallest_amount_witness :
  (3 >= 1)%Z /\ 0 <= 40 /\ 0 <= 20 /\
  exists v, calculate_reimbursement 0 3 40 20 false false = Ok v /\ 30.60 <= v.
Proof.
  assert (H1 : (3 >= 1)%Z) by lia.
  assert (H2 : 0 <= 40) by q_closed.
  assert (H3 : 0 <= 20) by q_closed.
  refine (conj H1 (conj H2 (conj H3 _))).
  exact (proj1 X14_smallest_amount 0 3%Z 40 20 false H1 H2 H3).
Defined.

Lemma per_diem_le (loc : string) (b mi d : Z) :
  table_row loc b mi -> (d >= 1)%Z -> per_diem_of b mi d loc <= 97.75 * inject_Z d.
Proof.
  intros Hrow Hd.
  assert (Hd' : 1 <= inject_Z d) by (apply (inject_Z_le 1); lia).
  unfold per_diem_of, duration_factor_of.
  destruct Hrow; repeat case_decide; subst; try discriminate; try lia;
    push_inject; inject_Z_consts; lra.
Qed.

Lemma efficiency_factor_le (e : Q) (d : Z) : efficiency_factor_of e d <= 1.2.
Proof. unfold efficiency_factor_of. repeat case_decide; lra. Qed.

Lemma cycle_factor_le (loc : string) (e : Q) : cycle_factor_of loc e <= 1.
Proof. unfold cycle_factor_of. case_decide; lra. Qed.

(** X15: the receipts cannot raise the amount without limit.  For
    [days >= 1] and miles that are not negative, whatever the receipts, the
    function without noise returns at most
    [195.5 * days + 0.84 * miles + 75.005]: twice the largest per diem,
    the largest mileage, and the largest receipt bonus. *)
Theorem X15_amount_bounded (rnd : Q) (d : Z) (m r : Q) (usd : bool) :
  (d >= 1)%Z -> 0 <= m ->
  exists v,
    calculate_reimbursement rnd d m r usd false = Ok v /\
    v <= 195.5 * inject_Z d + 0.84 * m + 75.005.
Proof.
  intros Hd Hm.
  destruct (calculate_reimbursement_plain rnd d m r usd)
    as (e & b & mi & _ & Hrow & Hv).
  eexists. split; [exact Hv |].
  pose proof (per_diem_le _ _ _ _ Hrow Hd) as Hpd.
  pose proof (per_diem_nonneg _ _ _ _ Hrow Hd) as Hpd0.
  destruct (receipt_adjustment_le _ e d r Hpd0) as [Hra _].
  pose proof (mileage_tiers_nonneg m) as Hmt0.
  assert (Hmt : mileage_tiers m <= 0.7 * m) by (apply mileage_tiers_le; lra).
  assert (Hmil : mileage_tiers m * efficiency_factor_of e d <= 0.84 * m).
  { apply Qle_trans with (mileage_tiers m * 1.2); [| lra].
    rewrite (Qmult_comm _ (efficiency_factor_of e d)), (Qmult_comm _ 1.2).
    apply Qmult_le_compat_r; [apply efficiency_factor_le | exact Hmt0]. }
  pose proof (Qmult_le_0_compat _ _ Hmt0 (efficiency_factor_nonneg e d)) as Hmil0.
  assert (Hsum : amount_before_cap efficiency_factor_of e
                   (infer_location e d m r) b mi d m r
                 <= 195.5 * inject_Z d + 0.84 * m + 75).
  { unfold amount_before_cap, cycle_factor_of.
    assert (Hd' : 1 <= inject_Z d) by (apply (inject_Z_le 1); lia).
    case_decide; lra. }
  destruct (round2_error (amount_after_cap efficiency_factor_of e
                            (infer_location e d m r) b mi d m r)) as [_ Hr2].
  rewrite amount_after_cap_unfold in *.
  case_decide; [| lra].
  pose proof (py_min_le_l (amount_before_cap efficiency_factor_of e
                             (infer_location e d m r) b mi d m r)
                          (inject_Z (d * 100))).
  lra.
Qed.

Lemma X15_amount_bounded_witness :
  (3 >= 1)%Z /\ 0 <= 700 /\
  exists v,
    calculate_reimbursement 0 3 700 2400 false false = Ok v /\
    v <= 195.5 * inject_Z 3 + 0.84 * 700 + 75.005.
Proof.
  assert (H1 : (3 >= 1)%Z) by lia.
  assert (H2 : 0 <= 700) by q_closed.
  refine (conj H1 (conj H2 _)).
  exact (X15_amount_bounded 0 3 700 2400 false H1 H2).
Defined.
